(** * Secret-key accessors of the Flutter sample: native-lib.cpp and SecurityUtils.cpp

    The repository has two native functions, one per platform.

    - [android/app/src/main/cpp/native-lib.cpp] exports the JNI function
      [Java_com_example_fluttersampleachitecture_NativeKeyProvider_getSecretKey],
      which builds a local [std::string] and hands its [c_str()] to
      [env->NewStringUTF].
    - [ios/Runner/SecurityUtils.cpp] defines [getSecretKey], which returns the
      [c_str()] of a function-local [static std::string].

    Both are embedded below as state-passing functions over the part of the
    process they touch: the native heap that backs [std::string] buffers, the
    slot of the function-local static, and the Java heap behind [JNIEnv]. *)

From Stdlib Require Import Strings.String Strings.Byte.
From stdpp Require Import base option gmap strings list relations.

(** ** Native side shared by both files: C strings and [std::string] *)

Module Native.

(** [const char*]: either the null pointer or the address of a block. *)
Inductive cptr : Type :=
| NULL
| Addr (a : positive).

Global Instance cptr_eq_dec : EqDecision cptr.
Proof. solve_decision. Defined.

(** The native heap: live blocks by base address. *)
Abbreviation memory := (gmap positive (list byte)).

(** [operator new]: a block at an address no live block has. The native heap
    is not bounded: the only allocation failure that the accessors can see as
    a return value is the one of the managed runtime (see [NewStringUTF]). *)
Definition operator_new (bytes : list byte) (m : memory) : positive * memory :=
  let a := fresh (dom m) in (a, <[a := bytes]> m).

Definition operator_delete (a : positive) (m : memory) : memory :=
  delete a m.

(** A [std::string] object: where its character buffer is, and its size. *)
Record std_string : Type := mk_string { data : positive; size : nat }.

(** [std::string s = "literal";] copies the characters and a terminating
    NUL into a buffer of its own. *)
Definition string_ctor (lit : string) (m : memory) : std_string * memory :=
  let bytes := list_byte_of_string lit in
  let '(a, m') := operator_new (bytes ++ [x00]) m in
  (mk_string a (length bytes), m').

(** [~basic_string()] gives the buffer back. *)
Definition string_dtor (s : std_string) (m : memory) : memory :=
  operator_delete (data s) m.

(** [s.c_str()]: pointer to the NUL-terminated buffer. *)
Definition c_str (s : std_string) : cptr := Addr (data s).

(** Characters of a buffer up to, and without, the first NUL. A buffer
    without NUL is not a C string. *)
Fixpoint until_nul (bs : list byte) : option (list byte) :=
  match bs with
  | [] => None
  | b :: bs' =>
      if Byte.eqb b x00 then Some []
      else cons b <$> until_nul bs'
  end.

(** What a reader of the [const char*] sees. *)
Definition read_c_string (m : memory) (p : cptr) : option (list byte) :=
  match p with
  | NULL => None
  | Addr a => m !! a ≫= until_nul
  end.

(** [strlen]. *)
Definition strlen (m : memory) (p : cptr) : option nat :=
  length <$> read_c_string m p.

(** No NUL among the characters of a literal. *)
Definition nul_free (bs : list byte) : Prop :=
  Forall (λ b, Byte.eqb b x00 = false) bs.

Global Instance nul_free_dec bs : Decision (nul_free bs).
Proof. unfold nul_free. apply Forall_dec. intros b. apply _. Defined.

End Native.

(** ** ios/Runner/SecurityUtils.cpp *)

Module SecurityUtils.
Import Native.

(** The characters of the literal that initialises the static. *)
Definition key_literal : string := "my32lengthsupersecretnooneknows!!"%string.

(** The part of the process the function can reach: the native heap and the
    slot of its function-local static [key]. The slot is [None] until the
    first call has constructed the object (the guard is not yet set). *)
Record process : Type := mk_process {
  heap : gmap positive (list byte);
  key : option std_string
}.

(** [const char* getSecretKey()]:
    [static std::string key = "..."; return key.c_str();]
    The declaration of a function-local static runs its initialiser the first
    time control passes through it and never again. *)
Definition getSecretKey (p : process) : cptr * process :=
  match key p with
  | Some k => (c_str k, p)
  | None =>
      let '(k, h') := string_ctor key_literal (heap p) in
      (c_str k, mk_process h' (Some k))
  end.

(** What the caller reads through the returned pointer, as characters. *)
Definition returned_string (p : process) : option string :=
  let '(ptr, p') := getSecretKey p in
  string_of_list_byte <$> read_c_string (heap p') ptr.

(** A process while it runs, up to its exit (for the exit see
    [exit_destructors] and [lifetime_step]). Either the accessor is called,
    or other code runs: other code may allocate, write and free blocks of its
    own, but [key] is not in its scope and the buffer of [key] is not its to
    write or free. *)
Inductive step : process → process → Prop :=
| step_call p :
    step p (getSecretKey p).2
| step_other p h' :
    (∀ k, key p = Some k → h' !! data k = heap p !! data k) →
    step p (mk_process h' (key p)).

(** The exit of the process (return from [main], or [exit]): the runtime
    runs the destructor that the initialisation of [key] registered, which
    gives the buffer back. The guard stays set: a call after that skips the
    declaration and returns [c_str()] of the destroyed object. *)
Definition exit_destructors (p : process) : process :=
  match key p with
  | Some k => mk_process (string_dtor k (heap p)) (Some k)
  | None => p
  end.

(** The whole lifetime of a process: it runs, and at some point its statics
    are destroyed, while other exit handlers and threads may still run. *)
Inductive lifetime_step : process → process → Prop :=
| life_runs p p' :
    step p p' → lifetime_step p p'
| life_exits p :
    lifetime_step p (exit_destructors p).

(** The process starts with the static not yet constructed. *)
Definition at_start (p : process) : Prop := key p = None.

Definition reachable (p : process) : Prop :=
  ∃ p0, at_start p0 ∧ rtc step p0 p.

(** What holds of the static once it exists. *)
Definition key_intact (p : process) : Prop :=
  ∀ k, key p = Some k →
       heap p !! data k = Some (list_byte_of_string key_literal ++ [x00])
       ∧ size k = length (list_byte_of_string key_literal).

(** [n] calls in a row, with the pointers they return. *)
Fixpoint calls (n : nat) (p : process) : list cptr * process :=
  match n with
  | O => ([], p)
  | S n' =>
      let '(ptr, p') := getSecretKey p in
      let '(ptrs, p'') := calls n' p' in
      (ptr :: ptrs, p'')
  end.

(** How many of [n] calls in a row run the initialiser of the static. *)
Fixpoint initialisations (n : nat) (p : process) : nat :=
  match n with
  | O => 0
  | S n' =>
      match key p with Some _ => 0 | None => 1 end
      + initialisations n' (getSecretKey p).2
  end.

(** A process in which nothing has run yet, and the same process two calls
    later with a block of other code's on the heap. *)
Definition fresh_process : process := mk_process ∅ None.

Definition busy_process : process :=
  let p := (getSecretKey (getSecretKey fresh_process).2).2 in
  mk_process (<[5%positive := [x2a; x00]]> (heap p)) (key p).

(** *** Several callers at once

    Control enters the declaration of [key] under the guard of the C++
    runtime: a caller that finds the initialisation under way waits for it to
    complete, and [c_str()] only reads. So a call is one step of the process,
    whichever caller makes it, and callers and other code take their steps in
    any order. Per caller: [None] while it has not returned, [Some ptr] once
    it holds the pointer [ptr]. *)
Inductive race
  : list (option cptr) * process → list (option cptr) * process → Prop :=
| race_call i cs p :
    cs !! i = Some None →
    race (cs, p) (<[i := Some (getSecretKey p).1]> cs, (getSecretKey p).2)
| race_other cs p h' :
    (∀ k, key p = Some k → h' !! data k = heap p !! data k) →
    race (cs, p) (cs, mk_process h' (key p)).

(** What holds while callers race: every pointer a caller holds is
    [c_str()] of the static. *)
Definition holds_key (sys : list (option cptr) * process) : Prop :=
  reachable sys.2
  ∧ ∀ i ptr, sys.1 !! i = Some (Some ptr) →
             ∃ k, key sys.2 = Some k ∧ ptr = c_str k.

(** The process after one call and its exit. *)
Definition exited_process : process :=
  exit_destructors (getSecretKey fresh_process).2.

End SecurityUtils.

(** ** android/app/src/main/cpp/native-lib.cpp *)

Module NativeLib.
Import Native.

(** The characters of the literal that initialises the local [key]. *)
Definition key_literal : string :=
  "abcdefhijklmnopqrstuvwxyzabcdefghijklmnop"%string.

(** *** The managed runtime behind [JNIEnv] *)

Inductive jthrowable : Type :=
| OutOfMemoryError.

(** [jobject], and [jstring] which is a [jobject]: a reference into the Java
    heap, or null. *)
Inductive jobject : Type :=
| jnull
| jref (r : positive).

Abbreviation jstring := jobject.

Global Instance jobject_eq_dec : EqDecision jobject.
Proof. solve_decision. Defined.

Global Instance jthrowable_eq_dec : EqDecision jthrowable.
Proof. solve_decision. Defined.

(** The Java heap as far as strings go: the [java.lang.String] objects by
    reference, how many characters the heap can hold, and the exception
    pending in the calling thread. *)
Record JavaVM : Type := mk_vm {
  strings : gmap positive string;
  capacity : nat;
  pending : option jthrowable
}.

Definition used (vm : JavaVM) : nat :=
  map_fold (λ _ s n, String.length s + n) 0 (strings vm).

Definition has_room (vm : JavaVM) (n : nat) : Prop :=
  used vm + n ≤ capacity vm.

Global Instance has_room_dec vm n : Decision (has_room vm n).
Proof. unfold has_room. apply _. Defined.

(** What native code running under a JVM can reach: its own heap and the
    runtime. *)
Record state : Type := mk_state {
  heap : gmap positive (list byte);
  jvm : JavaVM
}.

(** Native code as a state transformer that returns a value. *)
Definition M (A : Type) : Type := state → A * state.

Definition ret {A} (a : A) : M A := λ st, (a, st).

Definition bind {A B} (c : M A) (k : A → M B) : M B :=
  λ st, let '(a, st') := c st in k a st'.

Notation "x <- c ;; k" := (bind c (λ x, k))
  (at level 100, c at next level, right associativity).

(** Construction and destruction of a local [std::string]. *)
Definition construct (lit : string) : M std_string :=
  λ st, let '(k, h') := string_ctor lit (heap st) in (k, mk_state h' (jvm st)).

Definition destroy (k : std_string) : M unit :=
  λ st, (tt, mk_state (string_dtor k (heap st)) (jvm st)).

(** [JNIEnv]: the table of functions of the runtime, of which the file uses
    one. *)
Record JNIEnv : Type := mk_env {
  NewStringUTF : cptr → M jstring
}.

(** Modelled from the spec: the runtime's [NewStringUTF], which [jni.h]
    declares and the repository does not contain. It marshals the C string at
    [bytes] into a new [java.lang.String] and returns a reference to it; when
    the Java heap has no room for it, it returns null and leaves an
    [OutOfMemoryError] pending (the one failure the spec names: allocation
    failure during string marshalling). Bytes below [0x80] are their own
    characters in modified UTF-8, which is all the literal has (see
    [key_literal_seven_bit]). A pointer that is not a C string is outside the
    contract; the model returns null for it. *)
Definition jni_NewStringUTF (bytes : cptr) : M jstring :=
  λ st,
    match read_c_string (heap st) bytes with
    | None => (jnull, st)
    | Some bs =>
        let s := string_of_list_byte bs in
        let vm := jvm st in
        if decide (has_room vm (String.length s)) then
          let r := fresh (dom (strings vm)) in
          (jref r,
           mk_state (heap st)
                    (mk_vm (<[r := s]> (strings vm)) (capacity vm) (pending vm)))
        else
          (jnull,
           mk_state (heap st)
                    (mk_vm (strings vm) (capacity vm) (Some OutOfMemoryError)))
    end.

Definition jni : JNIEnv := mk_env jni_NewStringUTF.

(** *** The exported function

    [std::string key = "..."; return env->NewStringUTF(key.c_str());]
    with the destructor of [key] run on the way out. *)
Definition Java_com_example_fluttersampleachitecture_NativeKeyProvider_getSecretKey
    (env : JNIEnv) (this : jobject) : M jstring :=
  key <- construct key_literal ;;
  result <- NewStringUTF env (c_str key) ;;
  _ <- destroy key ;;
  ret result.

Abbreviation getSecretKey :=
  Java_com_example_fluttersampleachitecture_NativeKeyProvider_getSecretKey.

(** The characters of a [jstring], as the managed caller sees them. *)
Definition jstring_chars (vm : JavaVM) (s : jstring) : option string :=
  match s with
  | jnull => None
  | jref r => strings vm !! r
  end.

(** What the managed caller receives from one call: the characters of the
    returned string, or nothing when null came back. *)
Definition returned_string (this : jobject) (st : state) : option string :=
  let '(r, st') := getSecretKey jni this st in
  jstring_chars (jvm st') r.

(** [n] calls in a row, with what each one delivered. *)
Fixpoint calls (n : nat) (this : jobject) (st : state)
  : list (option string) * state :=
  match n with
  | O => ([], st)
  | S n' =>
      let '(r, st') := getSecretKey jni this st in
      let '(rs, st'') := calls n' this st' in
      (jstring_chars (jvm st') r :: rs, st'')
  end.

(** All bytes of a string below [0x80]. *)
Definition seven_bit (s : string) : Prop :=
  Forall (λ b, Byte.to_nat b < 128) (list_byte_of_string s).

Global Instance seven_bit_dec s : Decision (seven_bit s).
Proof. unfold seven_bit. apply Forall_dec. intros b. apply _. Defined.

(** *** The two ways a call can end *)

(** With room in the Java heap: a new [String] with the characters of the
    literal, and nothing else touched. *)
Definition after_success (st : state) : jstring * state :=
  let vm := jvm st in
  let r := fresh (dom (strings vm)) in
  (jref r,
   mk_state (heap st)
            (mk_vm (<[r := key_literal]> (strings vm)) (capacity vm) (pending vm))).

(** Without: null, and an [OutOfMemoryError] pending. *)
Definition after_failure (st : state) : jstring * state :=
  let vm := jvm st in
  (jnull,
   mk_state (heap st)
            (mk_vm (strings vm) (capacity vm) (Some OutOfMemoryError))).

(** *** Several callers at once

    Every caller runs the body of the export on the heap and the runtime
    that all callers share. The body makes three calls, into the C++ runtime,
    the JNI and the C++ runtime again, each of them atomic; between them any
    other caller may run. A caller is where it is in the body, with the
    locals it has by then. *)
Inductive caller : Type :=
| Entered (this : jobject)
| Constructed (key : std_string)
| Marshalled (key : std_string) (result : jstring)
| Returned (result : jstring).

(** The next call of the body. *)
Definition advance (env : JNIEnv) (c : caller) : M caller :=
  match c with
  | Entered this =>
      key <- construct key_literal ;; ret (Constructed key)
  | Constructed key =>
      result <- NewStringUTF env (c_str key) ;; ret (Marshalled key result)
  | Marshalled key result =>
      _ <- destroy key ;; ret (Returned result)
  | Returned result =>
      ret (Returned result)
  end.

(** A schedule names, turn by turn, the caller that makes its next call. *)
Fixpoint interleave (sched : list nat) (cs : list caller) (st : state)
  : list caller * state :=
  match sched with
  | [] => (cs, st)
  | i :: sched' =>
      match cs !! i with
      | Some c =>
          let '(c', st') := advance jni c st in
          interleave sched' (<[i := c']> cs) st'
      | None => interleave sched' cs st
      end
  end.

(** How many turns a schedule gives to caller [i]. *)
Definition turns (i : nat) (sched : list nat) : nat :=
  length (filter (λ j, j = i) sched).

(** How many of its three calls a caller has made. *)
Definition stage (c : caller) : nat :=
  match c with
  | Entered _ => 0
  | Constructed _ => 1
  | Marshalled _ _ => 2
  | Returned _ => 3
  end.

(** The local [key] of a caller while it is alive, and the result a caller
    has got from [NewStringUTF]. *)
Definition buffer_of (c : caller) : option std_string :=
  match c with
  | Constructed key | Marshalled key _ => Some key
  | Entered _ | Returned _ => None
  end.

Definition result_of (c : caller) : option jstring :=
  match c with
  | Marshalled _ result | Returned result => Some result
  | Entered _ | Constructed _ => None
  end.

(** What holds while callers race: every live [key] has its buffer, with
    the literal in it; no two callers share a buffer; every reference a
    caller has got leads to a [String] with the literal. *)
Definition sound (cs : list caller) (st : state) : Prop :=
  (∀ i c k, cs !! i = Some c → buffer_of c = Some k →
            heap st !! data k
            = Some (list_byte_of_string key_literal ++ [x00]))
  ∧ (∀ i j ci cj ki kj,
       i ≠ j → cs !! i = Some ci → cs !! j = Some cj →
       buffer_of ci = Some ki → buffer_of cj = Some kj →
       data ki ≠ data kj)
  ∧ (∀ i c r, cs !! i = Some c → result_of c = Some (jref r) →
              strings (jvm st) !! r = Some key_literal).

(** Three runtimes: one whose heap has room for fifty characters, one with
    room for two more copies of the literal, one whose heap is full. *)
Definition roomy : state :=
  mk_state ∅ (mk_vm ∅ 50 None).

Definition spacious : state :=
  mk_state ∅ (mk_vm {[ 1%positive := "cached"%string ]} 100 None).

Definition exhausted : state :=
  mk_state ∅ (mk_vm {[ 1%positive := "cached"%string ]} 6 None).

End NativeLib.

(** * Properties *)

Import Native.

(** ** C strings and [std::string] *)

Section NativeFacts.
Implicit Types (m : gmap positive (list byte)) (bs : list byte) (lit : string).

Lemma until_nul_terminated bs :
  nul_free bs → until_nul (bs ++ [x00]) = Some bs.
Proof.
  induction 1 as [|b bs Hb _ IH]; simpl; [done|].
  by rewrite Hb, IH.
Qed.

Lemma fresh_unused {A} (m : gmap positive A) : m !! fresh (dom m) = None.
Proof. apply not_elem_of_dom, is_fresh. Qed.

Lemma string_ctor_unfold lit m :
  string_ctor lit m =
    (mk_string (fresh (dom m)) (length (list_byte_of_string lit)),
     <[fresh (dom m) := list_byte_of_string lit ++ [x00]]> m).
Proof. reflexivity. Qed.

(** The buffer of a new string is a block that was not live before. *)
Lemma string_ctor_fresh lit m :
  m !! data (string_ctor lit m).1 = None.
Proof. rewrite string_ctor_unfold. apply fresh_unused. Qed.

(** Reading through [c_str()] of a new string gives the literal back. *)
Lemma read_constructed lit m :
  nul_free (list_byte_of_string lit) →
  read_c_string (string_ctor lit m).2 (c_str (string_ctor lit m).1)
  = Some (list_byte_of_string lit).
Proof.
  intros Hnul. rewrite string_ctor_unfold. simpl.
  rewrite lookup_insert_eq. simpl. by apply until_nul_terminated.
Qed.

(** Destroying a string right after it was built restores the heap. *)
Lemma dtor_ctor lit m :
  string_dtor (string_ctor lit m).1 (string_ctor lit m).2 = m.
Proof.
  rewrite string_ctor_unfold. unfold string_dtor, operator_delete. simpl.
  apply delete_insert_id, fresh_unused.
Qed.

End NativeFacts.

(** ** The static of [SecurityUtils.cpp] *)

Section StaticKey.
Import SecurityUtils.
Implicit Types (p : process) (k : std_string).

Lemma ios_literal_nul_free : nul_free (list_byte_of_string key_literal).
Proof. apply (bool_decide_unpack _). by vm_compute. Qed.

(** First call: the initialiser runs. *)
Lemma getSecretKey_first p :
  key p = None →
  getSecretKey p =
    (c_str (string_ctor key_literal (heap p)).1,
     mk_process (string_ctor key_literal (heap p)).2
                (Some (string_ctor key_literal (heap p)).1)).
Proof. intros Hk. unfold getSecretKey. by rewrite Hk. Qed.

(** Any later call: the declaration is skipped. *)
Lemma getSecretKey_later p k :
  key p = Some k → getSecretKey p = (c_str k, p).
Proof. intros Hk. unfold getSecretKey. by rewrite Hk. Qed.

(** After a call the static exists, and the call returned its [c_str()]. *)
Lemma getSecretKey_constructed p :
  ∃ k, key (getSecretKey p).2 = Some k ∧ (getSecretKey p).1 = c_str k.
Proof.
  destruct (key p) as [k|] eqn:Hk.
  - exists k. by rewrite (getSecretKey_later _ _ Hk).
  - eexists. by rewrite (getSecretKey_first _ Hk).
Qed.

Lemma call_key_intact p : key_intact p → key_intact (getSecretKey p).2.
Proof.
  intros Hp. destruct (key p) as [k|] eqn:Hk.
  - by rewrite (getSecretKey_later _ _ Hk).
  - rewrite (getSecretKey_first _ Hk). intros k' [= <-]. simpl.
    by rewrite lookup_insert_eq.
Qed.

Lemma step_key_intact p p' : step p p' → key_intact p → key_intact p'.
Proof.
  destruct 1 as [p|p h' Hframe]; intros Hp.
  - by apply call_key_intact.
  - intros k Hk. simpl in *. rewrite (Hframe _ Hk). by apply Hp.
Qed.

Lemma rtc_key_intact p p' : rtc step p p' → key_intact p → key_intact p'.
Proof. induction 1; eauto using step_key_intact. Qed.

Lemma at_start_key_intact p : at_start p → key_intact p.
Proof. intros Hp k Hk. unfold at_start in Hp. congruence. Qed.

Lemma reachable_key_intact p : reachable p → key_intact p.
Proof.
  intros (p0 & Hstart & Hrun).
  eauto using rtc_key_intact, at_start_key_intact.
Qed.

(** Once the static exists, no step replaces or removes it. *)
Lemma step_key_kept p p' k : step p p' → key p = Some k → key p' = Some k.
Proof.
  destruct 1 as [p|p h' _]; intros Hk; [|done].
  by rewrite (getSecretKey_later _ _ Hk).
Qed.

Lemma rtc_key_kept p p' k : rtc step p p' → key p = Some k → key p' = Some k.
Proof. induction 1; eauto using step_key_kept. Qed.

(** A call leaves behind the static whose [c_str()] it returned; a call in
    any later state finds that same object and returns the same pointer. *)
Lemma later_call_same_key p1 p2 :
  rtc step (getSecretKey p1).2 p2 →
  ∃ k, (getSecretKey p1).1 = c_str k
       ∧ key (getSecretKey p1).2 = Some k
       ∧ key p2 = Some k
       ∧ getSecretKey p2 = (c_str k, p2).
Proof.
  intros Hrun.
  destruct (getSecretKey_constructed p1) as (k & Hk & Hptr).
  pose proof (rtc_key_kept _ _ _ Hrun Hk) as Hk2.
  exists k. repeat split; try done.
  by apply getSecretKey_later.
Qed.

Lemma reachable_after_call p p' :
  reachable p → rtc step (getSecretKey p).2 p' → reachable p'.
Proof.
  intros (p0 & Hstart & Hrun) Hmore. exists p0. split; [done|].
  etrans; [done|]. eapply rtc_l; [apply step_call|done].
Qed.

(** In a state where the static is intact, a call delivers the literal. *)
Lemma read_intact p :
  key_intact p →
  read_c_string (heap (getSecretKey p).2) (getSecretKey p).1
  = Some (list_byte_of_string key_literal).
Proof.
  intros Hp%call_key_intact.
  destruct (getSecretKey_constructed p) as (k & Hk & ->).
  destruct (Hp _ Hk) as [Hbuf _]. unfold read_c_string, c_str. rewrite Hbuf.
  exact (until_nul_terminated _ ios_literal_nul_free).
Qed.

Lemma returned_string_intact p :
  key_intact p → returned_string p = Some key_literal.
Proof.
  intros Hp. unfold returned_string.
  pose proof (read_intact p Hp) as Hread.
  destruct (getSecretKey p) as [ptr p']. simpl in *.
  by rewrite Hread; simpl; rewrite string_of_list_byte_of_string.
Qed.

End StaticKey.

(** ** The JNI export of [native-lib.cpp] *)

Section Bridge.
Import NativeLib.
Implicit Types (st : state) (this : jobject) (vm : JavaVM).

Lemma bridge_literal_nul_free : nul_free (list_byte_of_string key_literal).
Proof. apply (bool_decide_unpack _). by vm_compute. Qed.

(** The literal is plain ASCII, so its modified UTF-8 bytes are its
    characters. *)
Lemma key_literal_seven_bit : seven_bit key_literal.
Proof. apply (bool_decide_unpack _). by vm_compute. Qed.

Lemma NewStringUTF_literal this st :
  jni_NewStringUTF (c_str (string_ctor key_literal (heap st)).1)
    (mk_state (string_ctor key_literal (heap st)).2 (jvm st))
  = if decide (has_room (jvm st) (String.length key_literal))
    then ((after_success st).1,
          mk_state (string_ctor key_literal (heap st)).2 (jvm (after_success st).2))
    else ((after_failure st).1,
          mk_state (string_ctor key_literal (heap st)).2 (jvm (after_failure st).2)).
Proof.
  unfold jni_NewStringUTF.
  change (heap (mk_state ?h _)) with h. change (jvm (mk_state _ ?v)) with v.
  rewrite (read_constructed _ _ bridge_literal_nul_free).
  rewrite string_of_list_byte_of_string.
  by destruct (decide _).
Qed.

(** The whole call, in closed form. *)
Lemma getSecretKey_unfold this st :
  getSecretKey jni this st =
    if decide (has_room (jvm st) (String.length key_literal))
    then after_success st
    else after_failure st.
Proof.
  unfold Java_com_example_fluttersampleachitecture_NativeKeyProvider_getSecretKey.
  unfold bind, construct, destroy, ret.
  change (NewStringUTF jni) with jni_NewStringUTF.
  pose proof (NewStringUTF_literal this st) as Hnew.
  pose proof (dtor_ctor key_literal (heap st)) as Hdtor.
  destruct (string_ctor key_literal (heap st)) as [k h'].
  change ((k, h').1) with k in *. change ((k, h').2) with h' in *.
  rewrite Hnew.
  destruct (decide _); unfold after_success, after_failure;
    change (heap (mk_state ?h _)) with h; by rewrite Hdtor.
Qed.

Lemma bridge_literal_length : String.length key_literal = 41.
Proof. reflexivity. Qed.

Lemma returned_string_unfold this st :
  returned_string this st =
    if decide (has_room (jvm st) (String.length key_literal))
    then Some key_literal
    else None.
Proof.
  unfold returned_string. rewrite getSecretKey_unfold.
  destruct (decide _); [|done].
  unfold after_success, jstring_chars.
  change (strings (jvm (mk_state _ (mk_vm ?s _ _)))) with s.
  apply lookup_insert_eq.
Qed.

End Bridge.

(** A process that has not run anything is reachable: it is its own start. *)
Ltac from_start :=
  exists SecurityUtils.fresh_process; split; reflexivity.

(** ** The claims about the managed-bridge accessor *)

Section BridgeClaims.
Import NativeLib.
Implicit Types (st : state) (this : jobject).

(** C1, as amended. What the JNI export returns is decided by the room in
    the Java heap alone: with room for the 41 characters it returns a
    reference, not null, to exactly the string
    "abcdefhijklmnopqrstuvwxyzabcdefghijklmnop"; without, [NewStringUTF] fails
    and the export returns null, and only then. *)
Theorem bridge_returns_literal_or_null this st :
  returned_string this st
  = (if decide (has_room (jvm st) 41)
     then Some "abcdefhijklmnopqrstuvwxyzabcdefghijklmnop"%string
     else None)
  ∧ ((getSecretKey jni this st).1 = jnull ↔ ¬ has_room (jvm st) 41).
Proof.
  unfold returned_string. rewrite getSecretKey_unfold.
  change (String.length key_literal) with 41.
  destruct (decide (has_room (jvm st) 41)) as [Hroom|Hfull].
  - (* a reference, at which the new String is read back *)
    unfold after_success, jstring_chars. cbn [fst snd]. split.
    + change (strings (jvm (mk_state _ (mk_vm ?s _ _)))) with s.
      apply lookup_insert_eq.
    + split; [discriminate|done].
  - (* null, which has no characters *)
    unfold after_failure. cbn [fst snd]. split; [reflexivity|done].
Qed.

(** C1 as stated fails: on a full Java heap the export returns null, not the
    literal. *)
Lemma bridge_null_on_full_heap :
  (getSecretKey jni (jref 7) exhausted).1 = jnull
  ∧ returned_string (jref 7) exhausted
    ≠ Some "abcdefhijklmnopqrstuvwxyzabcdefghijklmnop"%string.
Proof. split; [by vm_compute|]. by vm_compute. Qed.

(** C3, as amended. Whenever the export returns a string, that string has 41
    characters. *)
Theorem bridge_string_length this st s :
  returned_string this st = Some s → String.length s = 41.
Proof.
  rewrite returned_string_unfold. destruct (decide _); [|done].
  by intros [= <-].
Qed.

Lemma bridge_string_length_witness :
  returned_string jnull roomy = Some key_literal
  ∧ String.length key_literal = 41.
Proof.
  assert (returned_string jnull roomy = Some key_literal) as H
    by (vm_compute; reflexivity).
  split; [exact H|].
  exact (bridge_string_length jnull roomy key_literal H).
Defined.

(** C3 as stated fails: the string returned on a heap with room does not have
    42 characters. *)
Lemma bridge_string_length_not_42 :
  String.length <$> returned_string jnull roomy ≠ Some 42.
Proof. by vm_compute. Qed.

End BridgeClaims.

(** ** The claims about the plain-native accessor *)

Section NativeClaims.
Import SecurityUtils.
Implicit Types (p : process) (k : std_string).

Lemma busy_process_run :
  rtc step (getSecretKey fresh_process).2 busy_process.
Proof.
  eapply rtc_l; [apply step_call|].
  apply rtc_once.
  apply (step_other (getSecretKey (getSecretKey fresh_process).2).2).
  intros k. vm_compute. by intros [= <-].
Qed.

(** C2. In every state a process can be in, [getSecretKey] returns a pointer
    to exactly the characters "my32lengthsupersecretnooneknows!!". *)
Theorem native_returns_literal p :
  reachable p →
  returned_string p = Some "my32lengthsupersecretnooneknows!!"%string.
Proof.
  intros Hp. pose proof (reachable_key_intact _ Hp) as Hintact.
  pose proof (read_intact p Hintact) as Hread.
  unfold returned_string.
  destruct (getSecretKey p) as [ptr p']. simpl in Hread.
  rewrite Hread. reflexivity.
Qed.

Lemma native_returns_literal_witness :
  reachable fresh_process
  ∧ returned_string fresh_process
    = Some "my32lengthsupersecretnooneknows!!"%string.
Proof.
  assert (reachable fresh_process) as Hstart
    by from_start.
  split; [exact Hstart|].
  exact (native_returns_literal fresh_process Hstart).
Defined.

(** C4, as amended. The string [getSecretKey] returns has 33 characters, and
    so says [strlen] of the returned pointer. *)
Theorem native_string_length p :
  reachable p →
  String.length <$> returned_string p = Some 33
  ∧ strlen (heap (getSecretKey p).2) (getSecretKey p).1 = Some 33.
Proof.
  intros Hp%reachable_key_intact. split.
  - by rewrite (returned_string_intact _ Hp).
  - unfold strlen. by rewrite (read_intact _ Hp).
Qed.

Lemma native_string_length_witness :
  reachable fresh_process
  ∧ String.length <$> returned_string fresh_process = Some 33
  ∧ strlen (heap (getSecretKey fresh_process).2) (getSecretKey fresh_process).1
    = Some 33.
Proof.
  assert (reachable fresh_process) as Hstart
    by from_start.
  split; [exact Hstart|].
  exact (native_string_length fresh_process Hstart).
Defined.

(** C4 as stated fails: the string returned by the first call of a process
    does not have 34 characters. *)
Lemma native_string_length_not_34 :
  String.length <$> returned_string fresh_process ≠ Some 34.
Proof. by vm_compute. Qed.

(** Calls after the first return the same pointer and leave the process as
    it is. *)
Lemma calls_after_first n p k :
  key p = Some k → calls n p = (replicate n (c_str k), p).
Proof.
  intros Hk. induction n as [|n IH]; simpl; [done|].
  by rewrite (getSecretKey_later _ _ Hk), IH.
Qed.

(** Once the static exists the initialiser does not run. *)
Lemma no_initialisation_after_first n p k :
  key p = Some k → initialisations n p = 0.
Proof.
  intros Hk. induction n as [|n IH]; [done|].
  cbn [initialisations]. rewrite (getSecretKey_later _ _ Hk), Hk.
  exact IH.
Qed.

(** However many calls are made, from whatever state, the initialiser runs
    at most once. *)
Lemma initialised_at_most_once n p : initialisations n p ≤ 1.
Proof.
  destruct n as [|n]; cbn [initialisations]; [lia|].
  destruct (getSecretKey_constructed p) as (k' & Hk' & _).
  rewrite (no_initialisation_after_first n _ _ Hk').
  destruct (key p); lia.
Qed.

(** C8, as amended. The pointer a call returns is [c_str()] of the one
    static [key]. The initialiser of that static runs at most once, however
    many calls are made; in every later state of the running process the
    object is still there, the same; a later call returns the same pointer
    without running the initialiser again (it leaves the process as it is,
    however often it is repeated); and the pointer still leads to the
    characters of the literal. Other code in the process neither owns nor
    frees the buffer: that is what [step_other] lets it do. All this holds
    up to the exit of the process, not beyond: the destructor that runs then
    gives the buffer back, and the pointer leads nowhere. *)
Theorem static_key_lives_on p1 p2 :
  reachable p1 →
  rtc step (getSecretKey p1).2 p2 →
  ∃ k, (getSecretKey p1).1 = c_str k
       ∧ key (getSecretKey p1).2 = Some k
       ∧ (∀ n, initialisations n p1 ≤ 1)
       ∧ key p2 = Some k
       ∧ getSecretKey p2 = (c_str k, p2)
       ∧ (∀ n, calls n p2 = (replicate n (c_str k), p2)
               ∧ initialisations n p2 = 0)
       ∧ read_c_string (heap p2) (c_str k)
         = Some (list_byte_of_string "my32lengthsupersecretnooneknows!!")
       ∧ read_c_string (heap (exit_destructors p2)) (c_str k) = None.
Proof.
  intros Hp1 Hrun.
  destruct (later_call_same_key p1 p2 Hrun) as (k & Hptr & Hk & Hk2 & Hcall).
  exists k. repeat split; try done.
  - intros n. apply initialised_at_most_once.
  - by apply calls_after_first.
  - by eapply no_initialisation_after_first.
  - assert (key_intact p2) as Hp2
      by eauto using reachable_key_intact, reachable_after_call.
    pose proof (read_intact _ Hp2) as Hread.
    by rewrite Hcall in Hread.
  - unfold exit_destructors. rewrite Hk2.
    unfold read_c_string, c_str, string_dtor, operator_delete. cbn [heap].
    by rewrite lookup_delete_eq.
Qed.

Lemma static_key_lives_on_witness :
  reachable fresh_process
  ∧ rtc step (getSecretKey fresh_process).2 busy_process
  ∧ ∃ k, (getSecretKey fresh_process).1 = c_str k
       ∧ key (getSecretKey fresh_process).2 = Some k
       ∧ (∀ n, initialisations n fresh_process ≤ 1)
       ∧ key busy_process = Some k
       ∧ getSecretKey busy_process = (c_str k, busy_process)
       ∧ (∀ n, calls n busy_process = (replicate n (c_str k), busy_process)
               ∧ initialisations n busy_process = 0)
       ∧ read_c_string (heap busy_process) (c_str k)
         = Some (list_byte_of_string "my32lengthsupersecretnooneknows!!")
       ∧ read_c_string (heap (exit_destructors busy_process)) (c_str k) = None.
Proof.
  assert (reachable fresh_process) as Hstart
    by from_start.
  assert (rtc step (getSecretKey fresh_process).2 busy_process) as Hrun.
  { eapply rtc_l; [apply step_call|].
    apply rtc_once.
    apply (step_other (getSecretKey (getSecretKey fresh_process).2).2).
    intros k. vm_compute. by intros [= <-]. }
  split; [exact Hstart|].
  split; [exact Hrun|].
  exact (static_key_lives_on fresh_process busy_process Hstart Hrun).
Defined.

(** C8 as stated fails: the static is destroyed within the lifetime of the
    process. After one call, which returns a pointer to the literal, and the
    exit of the process, the buffer is gone, the pointer that was returned
    leads nowhere, and a call would return that same pointer again. *)
Lemma static_destroyed_at_exit :
  rtc lifetime_step fresh_process exited_process
  ∧ (getSecretKey fresh_process).1 = Addr 1
  ∧ read_c_string (heap (getSecretKey fresh_process).2) (Addr 1)
    = Some (list_byte_of_string "my32lengthsupersecretnooneknows!!")
  ∧ heap exited_process = ∅
  ∧ read_c_string (heap exited_process) (Addr 1) = None
  ∧ (getSecretKey exited_process).1 = Addr 1.
Proof.
  split.
  { eapply rtc_l; [apply life_runs, step_call|].
    apply rtc_once, life_exits. }
  repeat split; by vm_compute.
Qed.

End NativeClaims.

(** ** The claims about both accessors *)

Section BothAccessors.
Implicit Types (st : NativeLib.state) (this : NativeLib.jobject).
Implicit Types (p : SecurityUtils.process).

(** C5, as amended. Any two calls of the JNI export that return a string
    return the same characters, and any two calls of [getSecretKey] in one
    process return the same pointer to the same characters. *)
Theorem same_value_on_every_call :
  (∀ this1 this2 st1 st2 s1 s2,
     NativeLib.returned_string this1 st1 = Some s1 →
     NativeLib.returned_string this2 st2 = Some s2 →
     s1 = s2)
  ∧ (∀ p1 p2,
       SecurityUtils.reachable p1 →
       rtc SecurityUtils.step (SecurityUtils.getSecretKey p1).2 p2 →
       (SecurityUtils.getSecretKey p2).1 = (SecurityUtils.getSecretKey p1).1
       ∧ SecurityUtils.returned_string p2 = SecurityUtils.returned_string p1).
Proof.
  split.
  - intros this1 this2 st1 st2 s1 s2.
    rewrite !returned_string_unfold.
    repeat destruct (decide _); congruence.
  - intros p1 p2 Hp1 Hrun.
    destruct (later_call_same_key p1 p2 Hrun) as (k & Hptr & _ & _ & Hcall).
    split; [by rewrite Hcall, Hptr|].
    assert (SecurityUtils.reachable p2) as Hp2
      by eauto using reachable_after_call.
    by rewrite !returned_string_intact by by apply reachable_key_intact.
Qed.

Lemma same_value_on_every_call_witness :
  (NativeLib.returned_string NativeLib.jnull NativeLib.roomy
     = Some NativeLib.key_literal
   ∧ NativeLib.returned_string (NativeLib.jref 1)
       (NativeLib.getSecretKey NativeLib.jni NativeLib.jnull NativeLib.spacious).2
     = Some NativeLib.key_literal
   ∧ NativeLib.key_literal = NativeLib.key_literal)
  ∧ (SecurityUtils.reachable SecurityUtils.fresh_process
     ∧ rtc SecurityUtils.step
         (SecurityUtils.getSecretKey SecurityUtils.fresh_process).2
         SecurityUtils.busy_process
     ∧ (SecurityUtils.getSecretKey SecurityUtils.busy_process).1
       = (SecurityUtils.getSecretKey SecurityUtils.fresh_process).1
     ∧ SecurityUtils.returned_string SecurityUtils.busy_process
       = SecurityUtils.returned_string SecurityUtils.fresh_process).
Proof.
  destruct same_value_on_every_call as [Hbridge Hnative].
  assert (NativeLib.returned_string NativeLib.jnull NativeLib.roomy
          = Some NativeLib.key_literal) as H1 by (vm_compute; reflexivity).
  assert (NativeLib.returned_string (NativeLib.jref 1)
            (NativeLib.getSecretKey NativeLib.jni NativeLib.jnull
               NativeLib.spacious).2
          = Some NativeLib.key_literal) as H2 by (vm_compute; reflexivity).
  assert (SecurityUtils.reachable SecurityUtils.fresh_process) as Hstart
    by from_start.
  pose proof busy_process_run as Hrun.
  split.
  - split; [exact H1|]. split; [exact H2|].
    exact (Hbridge _ _ _ _ _ _ H1 H2).
  - split; [exact Hstart|]. split; [exact Hrun|].
    exact (Hnative _ _ Hstart Hrun).
Defined.

(** C5 as stated fails: of two calls in a row on a heap with room for one
    copy of the literal, the first returns the literal and the second null. *)
Lemma second_call_differs :
  (NativeLib.calls 2 NativeLib.jnull NativeLib.roomy).1
  = [Some "abcdefhijklmnopqrstuvwxyzabcdefghijklmnop"%string; None].
Proof. by vm_compute. Qed.

(** C6, as amended. A call of the JNI export on a heap with room leaves the
    process as it was but for the one new [String] it returns, at a reference
    that was free: the native heap, every other Java object, the capacity and
    the pending exception are as before. A call on a heap without room leaves
    the process as it was but for the [OutOfMemoryError] now pending: the
    native heap (the buffer of [key] is freed on this path too), the Java
    objects and the capacity are as before. A call of [getSecretKey] once the
    static exists leaves the process as it was; the first call changes it
    only by constructing the static, in a block that was free. *)
Theorem calls_touch_only_what_they_return :
  (∀ this st,
     NativeLib.has_room (NativeLib.jvm st) 41 →
     ∃ r, NativeLib.strings (NativeLib.jvm st) !! r = None
          ∧ NativeLib.getSecretKey NativeLib.jni this st
            = (NativeLib.jref r,
               NativeLib.mk_state (NativeLib.heap st)
                 (NativeLib.mk_vm
                    (<[r := "abcdefhijklmnopqrstuvwxyzabcdefghijklmnop"%string]>
                       (NativeLib.strings (NativeLib.jvm st)))
                    (NativeLib.capacity (NativeLib.jvm st))
                    (NativeLib.pending (NativeLib.jvm st)))))
  ∧ (∀ this st,
       ¬ NativeLib.has_room (NativeLib.jvm st) 41 →
       NativeLib.getSecretKey NativeLib.jni this st
       = (NativeLib.jnull,
          NativeLib.mk_state (NativeLib.heap st)
            (NativeLib.mk_vm
               (NativeLib.strings (NativeLib.jvm st))
               (NativeLib.capacity (NativeLib.jvm st))
               (Some NativeLib.OutOfMemoryError))))
  ∧ (∀ p k,
       SecurityUtils.key p = Some k →
       SecurityUtils.getSecretKey p = (c_str k, p))
  ∧ (∀ p,
       SecurityUtils.key p = None →
       ∃ k, SecurityUtils.heap p !! data k = None
            ∧ SecurityUtils.getSecretKey p
              = (c_str k,
                 SecurityUtils.mk_process
                   (<[data k :=
                        list_byte_of_string "my32lengthsupersecretnooneknows!!"
                        ++ [x00]]> (SecurityUtils.heap p))
                   (Some k))).
Proof.
  split; [|split; [|split]].
  - intros this st Hroom.
    exists (fresh (dom (NativeLib.strings (NativeLib.jvm st)))).
    split; [apply fresh_unused|].
    rewrite getSecretKey_unfold. by rewrite decide_True.
  - intros this st Hfull.
    rewrite getSecretKey_unfold. by rewrite decide_False.
  - apply getSecretKey_later.
  - intros p Hk.
    exists (string_ctor SecurityUtils.key_literal (SecurityUtils.heap p)).1.
    split; [apply string_ctor_fresh|].
    by rewrite (getSecretKey_first _ Hk).
Qed.

(** C6 as stated fails, for either accessor. On a full Java heap the export
    returns null and yet the process is not as it was: an [OutOfMemoryError]
    is now pending. And the first call of [getSecretKey] in a process is no
    pure read: besides returning a pointer it sets up the static, which was
    not there before, in a block the heap did not have. *)
Lemma calls_have_side_effects :
  ((NativeLib.getSecretKey NativeLib.jni (NativeLib.jref 7)
      NativeLib.exhausted).1
   = NativeLib.jnull
   ∧ NativeLib.pending (NativeLib.jvm NativeLib.exhausted) = None
   ∧ NativeLib.pending
       (NativeLib.jvm
          (NativeLib.getSecretKey NativeLib.jni (NativeLib.jref 7)
             NativeLib.exhausted).2)
     = Some NativeLib.OutOfMemoryError)
  ∧ ((SecurityUtils.getSecretKey SecurityUtils.fresh_process).1 = Addr 1
     ∧ SecurityUtils.key SecurityUtils.fresh_process = None
     ∧ SecurityUtils.key
         (SecurityUtils.getSecretKey SecurityUtils.fresh_process).2
       = Some (mk_string 1 33)
     ∧ base.size (SecurityUtils.heap SecurityUtils.fresh_process) = 0
     ∧ base.size
         (SecurityUtils.heap
            (SecurityUtils.getSecretKey SecurityUtils.fresh_process).2)
       = 1).
Proof. repeat split; by vm_compute. Qed.

Lemma calls_touch_only_what_they_return_witness :
  (NativeLib.has_room (NativeLib.jvm NativeLib.spacious) 41
   ∧ ∃ r, NativeLib.strings (NativeLib.jvm NativeLib.spacious) !! r = None
          ∧ NativeLib.getSecretKey NativeLib.jni (NativeLib.jref 7)
              NativeLib.spacious
            = (NativeLib.jref r,
               NativeLib.mk_state (NativeLib.heap NativeLib.spacious)
                 (NativeLib.mk_vm
                    (<[r := "abcdefhijklmnopqrstuvwxyzabcdefghijklmnop"%string]>
                       (NativeLib.strings (NativeLib.jvm NativeLib.spacious)))
                    (NativeLib.capacity (NativeLib.jvm NativeLib.spacious))
                    (NativeLib.pending (NativeLib.jvm NativeLib.spacious)))))
  ∧ (¬ NativeLib.has_room (NativeLib.jvm NativeLib.exhausted) 41
     ∧ NativeLib.getSecretKey NativeLib.jni (NativeLib.jref 7)
         NativeLib.exhausted
       = (NativeLib.jnull,
          NativeLib.mk_state (NativeLib.heap NativeLib.exhausted)
            (NativeLib.mk_vm
               (NativeLib.strings (NativeLib.jvm NativeLib.exhausted))
               (NativeLib.capacity (NativeLib.jvm NativeLib.exhausted))
               (Some NativeLib.OutOfMemoryError))))
  ∧ (SecurityUtils.key SecurityUtils.busy_process = Some (mk_string 1 33)
     ∧ SecurityUtils.getSecretKey SecurityUtils.busy_process
       = (c_str (mk_string 1 33), SecurityUtils.busy_process))
  ∧ (SecurityUtils.key SecurityUtils.fresh_process = None
     ∧ ∃ k, SecurityUtils.heap SecurityUtils.fresh_process !! data k = None
            ∧ SecurityUtils.getSecretKey SecurityUtils.fresh_process
              = (c_str k,
                 SecurityUtils.mk_process
                   (<[data k :=
                        list_byte_of_string "my32lengthsupersecretnooneknows!!"
                        ++ [x00]]>
                      (SecurityUtils.heap SecurityUtils.fresh_process))
                   (Some k))).
Proof.
  destruct calls_touch_only_what_they_return
    as (Hbridge & Hfailed & Hlater & Hfirst).
  assert (NativeLib.has_room (NativeLib.jvm NativeLib.spacious) 41) as Hroom
    by (vm_compute; lia).
  assert (¬ NativeLib.has_room (NativeLib.jvm NativeLib.exhausted) 41)
    as Hfull by (vm_compute; lia).
  assert (SecurityUtils.key SecurityUtils.busy_process = Some (mk_string 1 33))
    as Hbusy by (vm_compute; reflexivity).
  assert (SecurityUtils.key SecurityUtils.fresh_process = None) as Hfresh
    by reflexivity.
  split; [|split; [|split]].
  - split; [exact Hroom|]. exact (Hbridge (NativeLib.jref 7) _ Hroom).
  - split; [exact Hfull|]. exact (Hfailed (NativeLib.jref 7) _ Hfull).
  - split; [exact Hbusy|]. exact (Hlater _ _ Hbusy).
  - split; [exact Hfresh|]. exact (Hfirst _ Hfresh).
Defined.

(** C7. As long as the Java heap has room for the string, a call of the JNI
    export returns a reference, not null, to a string the caller can read,
    and raises no exception; a call of [getSecretKey] returns a pointer, not
    null, to a C string, in every state a process can be in. *)
Theorem no_error_without_exhaustion :
  (∀ this st,
     NativeLib.has_room (NativeLib.jvm st) 41 →
     ∃ r s,
       (NativeLib.getSecretKey NativeLib.jni this st).1 = NativeLib.jref r
       ∧ NativeLib.returned_string this st = Some s
       ∧ NativeLib.pending
           (NativeLib.jvm (NativeLib.getSecretKey NativeLib.jni this st).2)
         = NativeLib.pending (NativeLib.jvm st))
  ∧ (∀ p,
       SecurityUtils.reachable p →
       ∃ a s,
         (SecurityUtils.getSecretKey p).1 = Addr a
         ∧ SecurityUtils.returned_string p = Some s).
Proof.
  split.
  - intros this st Hroom.
    assert (NativeLib.has_room (NativeLib.jvm st)
              (String.length NativeLib.key_literal)) as Hroom' by done.
    eexists _, _. rewrite returned_string_unfold, getSecretKey_unfold.
    by rewrite !(decide_True _ _ Hroom').
  - intros p Hp%reachable_key_intact.
    destruct (getSecretKey_constructed p) as (k & _ & Hptr).
    exists (data k), SecurityUtils.key_literal.
    split; [done|]. by apply returned_string_intact.
Qed.

Lemma no_error_without_exhaustion_witness :
  (NativeLib.has_room (NativeLib.jvm NativeLib.roomy) 41
   ∧ ∃ r s,
       (NativeLib.getSecretKey NativeLib.jni NativeLib.jnull NativeLib.roomy).1
       = NativeLib.jref r
       ∧ NativeLib.returned_string NativeLib.jnull NativeLib.roomy = Some s
       ∧ NativeLib.pending
           (NativeLib.jvm
              (NativeLib.getSecretKey NativeLib.jni NativeLib.jnull
                 NativeLib.roomy).2)
         = NativeLib.pending (NativeLib.jvm NativeLib.roomy))
  ∧ (SecurityUtils.reachable SecurityUtils.fresh_process
     ∧ ∃ a s,
         (SecurityUtils.getSecretKey SecurityUtils.fresh_process).1 = Addr a
         ∧ SecurityUtils.returned_string SecurityUtils.fresh_process = Some s).
Proof.
  destruct no_error_without_exhaustion as [Hbridge Hnative].
  assert (NativeLib.has_room (NativeLib.jvm NativeLib.roomy) 41) as Hroom
    by (vm_compute; lia).
  assert (SecurityUtils.reachable SecurityUtils.fresh_process) as Hstart
    by from_start.
  split.
  - split; [exact Hroom|]. exact (Hbridge NativeLib.jnull _ Hroom).
  - split; [exact Hstart|]. exact (Hnative _ Hstart).
Defined.

(** C9. Whatever a call of the JNI export delivers, it is not what a call of
    [getSecretKey] delivers: the two literals are different strings. *)
Theorem accessors_disagree this st p :
  SecurityUtils.reachable p →
  NativeLib.returned_string this st ≠ SecurityUtils.returned_string p
  ∧ NativeLib.key_literal ≠ SecurityUtils.key_literal.
Proof.
  intros Hp%reachable_key_intact.
  rewrite returned_string_unfold, (returned_string_intact _ Hp).
  split; [by destruct (decide _)|done].
Qed.

Lemma accessors_disagree_witness :
  SecurityUtils.reachable SecurityUtils.busy_process
  ∧ NativeLib.returned_string NativeLib.jnull NativeLib.roomy
    ≠ SecurityUtils.returned_string SecurityUtils.busy_process
  ∧ NativeLib.key_literal ≠ SecurityUtils.key_literal.
Proof.
  assert (SecurityUtils.reachable SecurityUtils.busy_process) as Hbusy.
  { exists SecurityUtils.fresh_process. split; [reflexivity|].
    eapply rtc_l; [apply SecurityUtils.step_call|]. exact busy_process_run. }
  split; [exact Hbusy|].
  exact (accessors_disagree NativeLib.jnull NativeLib.roomy _ Hbusy).
Defined.

End BothAccessors.

(** ** Several callers at once *)

Section BridgeRace.
Import NativeLib.
Implicit Types (st : state) (c : caller) (cs : list caller).

(** Taking the three turns of one caller alone is calling the export. *)
Lemma three_turns_are_a_call this st :
  interleave [0; 0; 0] [Entered this] st
  = ([Returned (getSecretKey jni this st).1], (getSecretKey jni this st).2).
Proof.
  unfold Java_com_example_fluttersampleachitecture_NativeKeyProvider_getSecretKey.
  cbn [interleave lookup list_lookup advance]. unfold bind, ret.
  destruct (construct key_literal st) as [k st1].
  cbn [interleave lookup list_lookup advance insert list_insert]. unfold bind, ret.
  destruct (NewStringUTF jni (c_str k) st1) as [r st2].
  cbn [interleave lookup list_lookup advance insert list_insert]. unfold bind, ret.
  destruct (destroy k st2) as [[] st3].
  reflexivity.
Qed.

Lemma stage_advance c st : stage (advance jni c st).1 = Nat.min 3 (stage c + 1).
Proof.
  destruct c as [this|k|k r|r]; cbn [advance]; unfold bind, ret.
  - by destruct (construct key_literal st).
  - by destruct (NewStringUTF jni (c_str k) st).
  - by destruct (destroy k st).
  - reflexivity.
Qed.

(** The three calls of the body, in closed form. *)
Lemma advance_entered this st :
  advance jni (Entered this) st
  = (Constructed (mk_string (fresh (dom (heap st)))
                    (length (list_byte_of_string key_literal))),
     mk_state (<[fresh (dom (heap st))
                 := list_byte_of_string key_literal ++ [x00]]> (heap st))
              (jvm st)).
Proof. reflexivity. Qed.

Lemma advance_constructed k st :
  heap st !! data k = Some (list_byte_of_string key_literal ++ [x00]) →
  advance jni (Constructed k) st
  = if decide (has_room (jvm st) (String.length key_literal))
    then (Marshalled k (after_success st).1, (after_success st).2)
    else (Marshalled k (after_failure st).1, (after_failure st).2).
Proof.
  intros Hbuf. cbn [advance]. unfold bind, ret.
  change (NewStringUTF jni) with jni_NewStringUTF.
  unfold jni_NewStringUTF, read_c_string, c_str. rewrite Hbuf.
  change (Some ?bs ≫= until_nul) with (until_nul bs).
  rewrite (until_nul_terminated _ bridge_literal_nul_free).
  rewrite string_of_list_byte_of_string.
  by destruct (decide _).
Qed.

Lemma advance_marshalled k r st :
  advance jni (Marshalled k r) st
  = (Returned r, mk_state (delete (data k) (heap st)) (jvm st)).
Proof. reflexivity. Qed.

(** A block that is live is not the one the allocator hands out next. *)
Lemma live_not_fresh {A} (m : gmap positive A) a x :
  m !! a = Some x → a ≠ fresh (dom m).
Proof. intros Ha ->. by rewrite fresh_unused in Ha. Qed.

(** Every turn keeps the callers sound. *)
Lemma advance_sound i c cs st :
  sound cs st → cs !! i = Some c →
  sound (<[i := (advance jni c st).1]> cs) (advance jni c st).2.
Proof.
  intros (Hbuf & Hapart & Hres) Hi.
  destruct c as [this|k|k r|r].
  - (* [key] is constructed, in a block no other caller has *)
    rewrite advance_entered. cbn [fst snd].
    split; [|split].
    + intros j c' k' [(<- & <- & _)|[Hne Hj]]%list_lookup_insert_Some Hk'.
      * injection Hk' as <-. apply lookup_insert_eq.
      * pose proof (Hbuf _ _ _ Hj Hk') as Hlive.
        cbn [heap]. rewrite lookup_insert_ne; [done|].
        apply not_eq_sym, (live_not_fresh _ _ _ Hlive).
    + intros j1 j2 c1 c2 k1 k2 Hne
        [(<- & <- & _)|[Hne1 Hj1]]%list_lookup_insert_Some
        [(<- & <- & _)|[Hne2 Hj2]]%list_lookup_insert_Some Hk1 Hk2;
        try done.
      * injection Hk1 as <-. cbn [data].
        apply not_eq_sym, (live_not_fresh _ _ _ (Hbuf _ _ _ Hj2 Hk2)).
      * injection Hk2 as <-. cbn [data].
        apply (live_not_fresh _ _ _ (Hbuf _ _ _ Hj1 Hk1)).
      * by eapply (Hapart j1 j2).
    + intros j c' r [(<- & <- & _)|[Hne Hj]]%list_lookup_insert_Some Hr;
        [done|]. by eapply Hres.
  - (* [NewStringUTF]: a new String, or null *)
    pose proof (Hbuf _ _ _ Hi eq_refl) as Hlive.
    rewrite (advance_constructed _ _ Hlive).
    destruct (decide _) as [Hroom|Hfull]; cbn [fst snd after_success after_failure].
    + split; [|split].
      * intros j c' k' [(<- & <- & _)|[Hne Hj]]%list_lookup_insert_Some Hk'.
        -- injection Hk' as <-. exact Hlive.
        -- by eapply Hbuf.
      * intros j1 j2 c1 c2 k1 k2 Hne
          [(<- & <- & _)|[Hne1 Hj1]]%list_lookup_insert_Some
          [(<- & <- & _)|[Hne2 Hj2]]%list_lookup_insert_Some Hk1 Hk2;
          try done.
        -- by eapply (Hapart i j2).
        -- by eapply (Hapart j1 i).
        -- by eapply (Hapart j1 j2).
      * intros j c' r [(<- & <- & _)|[Hne Hj]]%list_lookup_insert_Some Hr.
        -- injection Hr as <-. cbn [jvm strings]. apply lookup_insert_eq.
        -- pose proof (Hres _ _ _ Hj Hr) as Hthere.
           cbn [jvm strings]. rewrite lookup_insert_ne; [done|].
           apply not_eq_sym, (live_not_fresh _ _ _ Hthere).
    + split; [|split].
      * intros j c' k' [(<- & <- & _)|[Hne Hj]]%list_lookup_insert_Some Hk'.
        -- injection Hk' as <-. exact Hlive.
        -- by eapply Hbuf.
      * intros j1 j2 c1 c2 k1 k2 Hne
          [(<- & <- & _)|[Hne1 Hj1]]%list_lookup_insert_Some
          [(<- & <- & _)|[Hne2 Hj2]]%list_lookup_insert_Some Hk1 Hk2;
          try done.
        -- by eapply (Hapart i j2).
        -- by eapply (Hapart j1 i).
        -- by eapply (Hapart j1 j2).
      * intros j c' r [(<- & <- & _)|[Hne Hj]]%list_lookup_insert_Some Hr;
          [done|]. by eapply Hres.
  - (* [key] is destroyed: its own buffer goes, no other *)
    rewrite advance_marshalled. cbn [fst snd].
    split; [|split].
    + intros j c' k' [(<- & <- & _)|[Hne Hj]]%list_lookup_insert_Some Hk';
        [done|].
      cbn [heap]. rewrite lookup_delete_ne; [by eapply Hbuf|].
      by eapply (Hapart i j).
    + intros j1 j2 c1 c2 k1 k2 Hne
        [(<- & <- & _)|[Hne1 Hj1]]%list_lookup_insert_Some
        [(<- & <- & _)|[Hne2 Hj2]]%list_lookup_insert_Some Hk1 Hk2;
        try done.
      by eapply (Hapart j1 j2).
    + intros j c' r' [(<- & <- & _)|[Hne Hj]]%list_lookup_insert_Some Hr.
      * by eapply (Hres i).
      * by eapply Hres.
  - (* returned: nothing left to do *)
    cbn [advance ret fst snd]. rewrite list_insert_id by done.
    by split; [|split].
Qed.

Lemma interleave_sound sched cs st :
  sound cs st → sound (interleave sched cs st).1 (interleave sched cs st).2.
Proof.
  revert cs st. induction sched as [|i sched IH]; intros cs st Hsound; [done|].
  cbn [interleave]. destruct (cs !! i) as [c|] eqn:Hi; [|by apply IH].
  pose proof (advance_sound i c cs st Hsound Hi) as Hstep.
  destruct (advance jni c st) as [c' st']. by apply IH.
Qed.

(** Callers that have only entered are sound on any state. *)
Lemma entered_sound (receivers : list jobject) st :
  sound (Entered <$> receivers) st.
Proof.
  assert (∀ i c, (Entered <$> receivers) !! i = Some c →
                 buffer_of c = None ∧ result_of c = None) as Hentered.
  { intros i c. rewrite list_lookup_fmap.
    destruct (receivers !! i); intros [= <-]. done. }
  split; [|split].
  - intros i c k Hi Hk. destruct (Hentered _ _ Hi). congruence.
  - intros i j ci cj ki kj _ Hi _ Hk. destruct (Hentered _ _ Hi). congruence.
  - intros i c r Hi Hr. destruct (Hentered _ _ Hi). congruence.
Qed.

Lemma turns_cons i j sched :
  turns i (j :: sched) = (if decide (j = i) then 1 else 0) + turns i sched.
Proof.
  unfold turns. rewrite filter_cons. by destruct (decide (j = i)).
Qed.

(** A caller is as far in the body as its turns have taken it. *)
Lemma interleave_stage sched cs st i c :
  cs !! i = Some c →
  ∃ c', (interleave sched cs st).1 !! i = Some c'
        ∧ stage c' = Nat.min 3 (stage c + turns i sched).
Proof.
  revert cs st c. induction sched as [|j sched IH]; intros cs st c Hi.
  - exists c. split; [done|]. unfold turns. cbn [filter list_filter length].
    destruct c; cbn [stage]; lia.
  - cbn [interleave]. rewrite turns_cons.
    destruct (cs !! j) as [cj|] eqn:Hj.
    + pose proof (stage_advance cj st) as Hstage.
      destruct (advance jni cj st) as [cj' st']. cbn [fst] in Hstage.
      destruct (decide (j = i)) as [->|Hne].
      * assert (cj = c) as -> by congruence.
        destruct (IH (<[i := cj']> cs) st' cj') as (c' & Hc' & Hs).
        { apply list_lookup_insert_eq. by eapply lookup_lt_Some. }
        exists c'. split; [done|]. lia.
      * destruct (IH (<[j := cj']> cs) st' c) as (c' & Hc' & Hs).
        { by rewrite list_lookup_insert_ne. }
        exists c'. split; [done|]. lia.
    + destruct (decide (j = i)) as [->|Hne]; [congruence|].
      destruct (IH cs st c Hi) as (c' & Hc' & Hs).
      exists c'. split; [done|]. lia.
Qed.
End BridgeRace.

Section StaticRace.
Import SecurityUtils.
Implicit Types (p : process) (cs : list (option cptr)).

Lemma reachable_other p h' :
  reachable p →
  (∀ k, key p = Some k → h' !! data k = heap p !! data k) →
  reachable (mk_process h' (key p)).
Proof.
  intros (p0 & Hstart & Hrun) Hframe. exists p0. split; [done|].
  eapply rtc_r; [done|]. by apply step_other.
Qed.

Lemma race_holds_key sys sys' : race sys sys' → holds_key sys → holds_key sys'.
Proof.
  destruct 1 as [i cs p Hi|cs p h' Hframe]; intros [Hreach Hptrs];
    cbn [fst snd] in *.
  - split; cbn [fst snd].
    + by apply (reachable_after_call p).
    + destruct (getSecretKey_constructed p) as (k & Hk & Hptr).
      intros j ptr [(<- & Heq & _)|[Hne Hj]]%list_lookup_insert_Some.
      * exists k. split; [done|]. congruence.
      * destruct (Hptrs _ _ Hj) as (k' & Hk' & ->).
        exists k'. split; [|done].
        by apply (step_key_kept p _ _ (step_call p)).
  - split; cbn [fst snd]; [by apply reachable_other|exact Hptrs].
Qed.

Lemma rtc_race_holds_key sys sys' :
  rtc race sys sys' → holds_key sys → holds_key sys'.
Proof. induction 1; eauto using race_holds_key. Qed.

Lemma waiting_holds_key n p : at_start p → holds_key (replicate n None, p).
Proof.
  intros Hstart. split; cbn [fst snd].
  - exists p. by split.
  - intros i ptr [? _]%lookup_replicate. done.
Qed.
End StaticRace.

Section RacingCallers.
Implicit Types (st : NativeLib.state) (p : SecurityUtils.process).




End RacingCallers.

(** * Further properties of the two functions *)

(** ** native-lib.cpp: the local [key] and the strings it leaves behind *)

Section BridgeMemory.
Import NativeLib.
Implicit Types (st : state) (this : jobject) (env : JNIEnv).

(** Whatever runtime is behind [env], as long as its [NewStringUTF] leaves
    the native heap alone, the export gives back the buffer of its local
    [key] on every path: the native heap after the call is the heap before
    it, and the pointer that was handed to the runtime leads nowhere any
    more. *)
Theorem export_releases_key env this st :
  (∀ ptr s, heap (NewStringUTF env ptr s).2 = heap s) →
  heap (getSecretKey env this st).2 = heap st
  ∧ read_c_string (heap (getSecretKey env this st).2)
      (c_str (string_ctor key_literal (heap st)).1)
    = None.
Proof.
  intros Hframe.
  assert (heap (getSecretKey env this st).2 = heap st) as Hheap.
  { unfold Java_com_example_fluttersampleachitecture_NativeKeyProvider_getSecretKey.
    unfold bind, construct, destroy, ret.
    pose proof (dtor_ctor key_literal (heap st)) as Hdtor.
    destruct (string_ctor key_literal (heap st)) as [k h'].
    change ((k, h').1) with k in Hdtor. change ((k, h').2) with h' in Hdtor.
    pose proof (Hframe (c_str k) (mk_state h' (jvm st))) as Hsame.
    destruct (NewStringUTF env (c_str k) (mk_state h' (jvm st))) as [r st'].
    simpl in Hsame. cbn [snd heap]. by rewrite Hsame. }
  split; [exact Hheap|].
  rewrite Hheap. unfold read_c_string, c_str.
  by rewrite string_ctor_fresh.
Qed.

Lemma export_releases_key_witness :
  (∀ ptr s, heap (NewStringUTF jni ptr s).2 = heap s)
  ∧ heap (getSecretKey jni (jref 7) exhausted).2 = heap exhausted
  ∧ read_c_string (heap (getSecretKey jni (jref 7) exhausted).2)
      (c_str (string_ctor key_literal (heap exhausted)).1)
    = None.
Proof.
  assert (∀ ptr s, heap (NewStringUTF jni ptr s).2 = heap s) as Hframe.
  { intros ptr s. unfold jni, NewStringUTF, jni_NewStringUTF.
    destruct (read_c_string (heap s) ptr); [|reflexivity].
    destruct (decide _); reflexivity. }
  split; [exact Hframe|].
  exact (export_releases_key jni (jref 7) exhausted Hframe).
Defined.

(** Two calls in a row that both return a string return two different
    [String] objects, and after the second call both are there with the
    characters of the literal: the export keeps no string of its own, and a
    later call does not disturb what an earlier one returned. *)
Theorem each_call_a_new_string this1 this2 st r1 r2 :
  (getSecretKey jni this1 st).1 = jref r1 →
  (getSecretKey jni this2 (getSecretKey jni this1 st).2).1 = jref r2 →
  r1 ≠ r2
  ∧ strings (jvm (getSecretKey jni this2 (getSecretKey jni this1 st).2).2) !! r1
    = Some key_literal
  ∧ strings (jvm (getSecretKey jni this2 (getSecretKey jni this1 st).2).2) !! r2
    = Some key_literal.
Proof.
  rewrite (getSecretKey_unfold this1 st).
  destruct (decide _) as [_|_]; [|discriminate].
  set (st1 := (after_success st).2).
  intros [= <-].
  rewrite (getSecretKey_unfold this2 st1).
  destruct (decide _) as [_|_]; [|discriminate].
  intros [= <-].
  assert (strings (jvm st1) !! fresh (dom (strings (jvm st))) = Some key_literal)
    as Hfirst by apply lookup_insert_eq.
  assert (fresh (dom (strings (jvm st))) ≠ fresh (dom (strings (jvm st1))))
    as Hne.
  { intros Heq. rewrite Heq in Hfirst.
    by rewrite fresh_unused in Hfirst. }
  split; [exact Hne|]. unfold after_success. cbn [snd jvm strings]. split.
  - rewrite lookup_insert_ne by done. exact Hfirst.
  - apply lookup_insert_eq.
Qed.

Lemma each_call_a_new_string_witness :
  (getSecretKey jni jnull spacious).1 = jref 2
  ∧ (getSecretKey jni jnull (getSecretKey jni jnull spacious).2).1 = jref 3
  ∧ 2%positive ≠ 3%positive
  ∧ strings (jvm (getSecretKey jni jnull
                    (getSecretKey jni jnull spacious).2).2) !! 2%positive
    = Some key_literal
  ∧ strings (jvm (getSecretKey jni jnull
                    (getSecretKey jni jnull spacious).2).2) !! 3%positive
    = Some key_literal.
Proof.
  assert ((getSecretKey jni jnull spacious).1 = jref 2) as H1
    by (vm_compute; reflexivity).
  assert ((getSecretKey jni jnull (getSecretKey jni jnull spacious).2).1
          = jref 3) as H2 by (vm_compute; reflexivity).
  split; [exact H1|]. split; [exact H2|].
  exact (each_call_a_new_string jnull jnull spacious 2 3 H1 H2).
Defined.

End BridgeMemory.

Section BridgeRuns.
Import NativeLib.
Implicit Types (st : state) (this : jobject).

(** One call, whichever way it ends, keeps every string the Java heap
    already had. *)
Lemma call_keeps_strings this st r s :
  strings (jvm st) !! r = Some s →
  strings (jvm (getSecretKey jni this st).2) !! r = Some s.
Proof.
  intros Hr. rewrite getSecretKey_unfold.
  destruct (decide _) as [_|_]; [|exact Hr].
  unfold after_success. cbn [snd jvm strings].
  rewrite lookup_insert_ne; [exact Hr|].
  intros Heq. rewrite <- Heq in Hr. by rewrite fresh_unused in Hr.
Qed.

Lemma call_keeps_heap_and_capacity this st :
  heap (getSecretKey jni this st).2 = heap st
  ∧ capacity (jvm (getSecretKey jni this st).2) = capacity (jvm st).
Proof. rewrite getSecretKey_unfold. by destruct (decide _). Qed.

(** Any number of calls in a row, from any state and succeeding or failing
    in any mix, leave the native heap as it was (no buffer of [key] is left
    behind), do not change how much the Java heap can hold, and leave every
    string that was in the Java heap where it was and as it was. *)
Theorem calls_keep_what_was_there n this st :
  heap (calls n this st).2 = heap st
  ∧ capacity (jvm (calls n this st).2) = capacity (jvm st)
  ∧ (∀ r s,
       strings (jvm st) !! r = Some s →
       strings (jvm (calls n this st).2) !! r = Some s).
Proof.
  revert st. induction n as [|n IH]; intros st; [done|].
  cbn [calls].
  pose proof (call_keeps_strings this st) as Hkeep.
  destruct (call_keeps_heap_and_capacity this st) as [Hheap Hcap].
  destruct (getSecretKey jni this st) as [res st1]. cbn [snd] in *.
  destruct (IH st1) as (Hheap' & Hcap' & Hkeep').
  destruct (calls n this st1) as [rs st2]. cbn [snd] in *.
  split; [congruence|]. split; [congruence|].
  intros r s Hr. by apply Hkeep', Hkeep.
Qed.

(** On an empty Java heap with room for one copy, three calls (one succeeds,
    two fail) leave the native heap and the capacity as they were; on a heap
    that holds a string, three calls (two succeed, one fails) leave that
    string as it was. *)
Lemma calls_keep_what_was_there_witness :
  ((calls 3 (jref 7) roomy).1 = [Some key_literal; None; None]
   ∧ heap (calls 3 (jref 7) roomy).2 = heap roomy
   ∧ capacity (jvm (calls 3 (jref 7) roomy).2) = capacity (jvm roomy))
  ∧ ((calls 3 (jref 1) spacious).1
     = [Some key_literal; Some key_literal; None]
     ∧ strings (jvm spacious) !! 1%positive = Some "cached"%string
     ∧ strings (jvm (calls 3 (jref 1) spacious).2) !! 1%positive
       = Some "cached"%string).
Proof.
  destruct (calls_keep_what_was_there 3 (jref 7) roomy) as (Hheap & Hcap & _).
  destruct (calls_keep_what_was_there 3 (jref 1) spacious) as (_ & _ & Hkeep).
  assert (strings (jvm spacious) !! 1%positive = Some "cached"%string) as Hr
    by (vm_compute; reflexivity).
  split.
  - split; [vm_compute; reflexivity|]. split; [exact Hheap|exact Hcap].
  - split; [vm_compute; reflexivity|]. split; [exact Hr|].
    exact (Hkeep 1%positive "cached"%string Hr).
Defined.

End BridgeRuns.

(** ** SecurityUtils.cpp: what calls do to the rest of the heap *)

Section StaticRuns.
Import SecurityUtils.
Implicit Types (p : process).

(** One call keeps every live block, and adds at most one. *)
Lemma call_keeps_blocks p a bs :
  heap p !! a = Some bs → heap (getSecretKey p).2 !! a = Some bs.
Proof.
  intros Ha. destruct (key p) as [k|] eqn:Hk.
  - by rewrite (getSecretKey_later _ _ Hk).
  - rewrite (getSecretKey_first _ Hk), string_ctor_unfold. cbn [snd heap].
    rewrite lookup_insert_ne; [exact Ha|].
    intros Heq. rewrite <- Heq in Ha. by rewrite fresh_unused in Ha.
Qed.

Lemma call_adds_one_block p :
  base.size (heap (getSecretKey p).2) ≤ S (base.size (heap p)).
Proof.
  destruct (key p) as [k|] eqn:Hk.
  - rewrite (getSecretKey_later _ _ Hk). cbn [snd]. lia.
  - rewrite (getSecretKey_first _ Hk), string_ctor_unfold. cbn [snd heap].
    rewrite map_size_insert_None by apply fresh_unused. lia.
Qed.

(** Any number of calls in a row, from any state of the process, leave at
    most one block more than there was (the buffer of the static, allocated
    once), and neither free nor overwrite a block that was live. *)
Theorem calls_spare_other_blocks n p :
  base.size (heap (calls n p).2) ≤ S (base.size (heap p))
  ∧ (∀ a bs, heap p !! a = Some bs → heap (calls n p).2 !! a = Some bs).
Proof.
  destruct n as [|n]; [cbn [calls snd]; split; [lia|done]|].
  cbn [calls].
  pose proof (call_keeps_blocks p) as Hkeep.
  pose proof (call_adds_one_block p) as Hsize.
  destruct (getSecretKey_constructed p) as (k & Hk & _).
  destruct (getSecretKey p) as [ptr p1]. cbn [fst snd] in *.
  rewrite (calls_after_first n p1 k Hk). cbn [snd].
  by split.
Qed.

(** Four calls in a process that has run nothing leave one block, the
    buffer; four calls next to a block of other code's leave that block as it
    was, and two blocks in all. *)
Lemma calls_spare_other_blocks_witness :
  (base.size (heap fresh_process) = 0
   ∧ base.size (heap (calls 4 fresh_process).2) = 1
   ∧ base.size (heap (calls 4 fresh_process).2)
     ≤ S (base.size (heap fresh_process)))
  ∧ (heap (mk_process {[ 1%positive := [x2a; x00] ]} None) !! 1%positive
     = Some [x2a; x00]
     ∧ heap (calls 4 (mk_process {[ 1%positive := [x2a; x00] ]} None)).2
         !! 1%positive
       = Some [x2a; x00]).
Proof.
  destruct (calls_spare_other_blocks 4 fresh_process) as [Hsize _].
  destruct (calls_spare_other_blocks 4
              (mk_process {[ 1%positive := [x2a; x00] ]} None)) as [_ Hkeep].
  assert (heap (mk_process {[ 1%positive := [x2a; x00] ]} None) !! 1%positive
          = Some [x2a; x00]) as Ha by (vm_compute; reflexivity).
  split.
  - split; [vm_compute; reflexivity|]. split; [vm_compute; reflexivity|].
    exact Hsize.
  - split; [exact Ha|]. exact (Hkeep 1%positive [x2a; x00] Ha).
Defined.

End StaticRuns.
